(** * count_lines.py: a shallow embedding and its specification

    The program walks directory trees, counts the lines of every [.cpp]
    and [.hpp] file it finds, prints one line per file and per-root and
    grand-total summaries.

    Model of the environment:
    - the filesystem seen from one path is a [node] tree; a directory
      carries whether [os.scandir] succeeds on it ([listable]), a file
      carries either its bytes or the cause of the exception raised when
      it is opened or read;
    - what the program prints is a list of [event]s, each tagged with the
      stream it goes to; the exact [repr] quoting of paths is abstracted. *)

From Stdlib Require Import List String Ascii Arith Lia Bool Permutation.
Import ListNotations.
Open Scope string_scope.
Open Scope list_scope.
Open Scope nat_scope.
Set Warnings "-register-all".


(* ------------------------------------------------------------------ *)
(** ** Text decoding: [open(path, 'r', encoding='utf-8', errors=...)] *)

(** The [errors=] argument of [open]. *)
Inductive errors_policy := Strict | Ignore.

(** [count_lines] opens files with [errors='ignore']. *)
Definition open_errors : errors_policy := Ignore.

(** What a decoding error does: [strict] raises (here [None]),
    [ignore] drops the offending bytes and goes on with [k]. *)
Definition on_decode_error (pol : errors_policy) (k : option (list nat))
  : option (list nat) :=
  match pol with
  | Strict => None
  | Ignore => k
  end.

Definition in_range (lo hi : nat) (b : Byte.byte) : bool :=
  (lo <=? Byte.to_nat b) && (Byte.to_nat b <=? hi).

Definition is_cont (b : Byte.byte) : bool := in_range 128 191 b.

(** Allowed range of the second byte of a three-byte sequence
    (E0: A0..BF, ED: 80..9F, otherwise 80..BF). *)
Definition second3_ok (b0 b1 : Byte.byte) : bool :=
  if Byte.to_nat b0 =? 224 then in_range 160 191 b1
  else if Byte.to_nat b0 =? 237 then in_range 128 159 b1
  else is_cont b1.

(** Allowed range of the second byte of a four-byte sequence
    (F0: 90..BF, F4: 80..8F, otherwise 80..BF). *)
Definition second4_ok (b0 b1 : Byte.byte) : bool :=
  if Byte.to_nat b0 =? 240 then in_range 144 191 b1
  else if Byte.to_nat b0 =? 244 then in_range 128 143 b1
  else is_cont b1.

Definition cp2 (b0 b1 : Byte.byte) : nat :=
  (Byte.to_nat b0 - 192) * 64 + (Byte.to_nat b1 - 128).
Definition cp3 (b0 b1 b2 : Byte.byte) : nat :=
  ((Byte.to_nat b0 - 224) * 64 + (Byte.to_nat b1 - 128)) * 64
  + (Byte.to_nat b2 - 128).
Definition cp4 (b0 b1 b2 b3 : Byte.byte) : nat :=
  (((Byte.to_nat b0 - 240) * 64 + (Byte.to_nat b1 - 128)) * 64
   + (Byte.to_nat b2 - 128)) * 64 + (Byte.to_nat b3 - 128).

(** CPython's UTF-8 decoder: a valid sequence yields its code point; an
    invalid one is the maximal prefix of a valid sequence (at least one
    byte), handed to the error handler. A sequence cut by the end of the
    file is invalid as well (the final flush of the incremental decoder). *)
Fixpoint utf8_decode (pol : errors_policy) (bs : list Byte.byte)
  : option (list nat) :=
  match bs with
  | [] => Some []
  | b0 :: r0 =>
    if Byte.to_nat b0 <? 128 then
      option_map (cons (Byte.to_nat b0)) (utf8_decode pol r0)
    else if in_range 194 223 b0 then
      match r0 with
      | b1 :: r1 =>
        if is_cont b1 then option_map (cons (cp2 b0 b1)) (utf8_decode pol r1)
        else on_decode_error pol (utf8_decode pol r0)
      | [] => on_decode_error pol (utf8_decode pol r0)
      end
    else if in_range 224 239 b0 then
      match r0 with
      | b1 :: r1 =>
        if second3_ok b0 b1 then
          match r1 with
          | b2 :: r2 =>
            if is_cont b2 then
              option_map (cons (cp3 b0 b1 b2)) (utf8_decode pol r2)
            else on_decode_error pol (utf8_decode pol r1)
          | [] => on_decode_error pol (utf8_decode pol r1)
          end
        else on_decode_error pol (utf8_decode pol r0)
      | [] => on_decode_error pol (utf8_decode pol r0)
      end
    else if in_range 240 244 b0 then
      match r0 with
      | b1 :: r1 =>
        if second4_ok b0 b1 then
          match r1 with
          | b2 :: r2 =>
            if is_cont b2 then
              match r2 with
              | b3 :: r3 =>
                if is_cont b3 then
                  option_map (cons (cp4 b0 b1 b2 b3)) (utf8_decode pol r3)
                else on_decode_error pol (utf8_decode pol r2)
              | [] => on_decode_error pol (utf8_decode pol r2)
              end
            else on_decode_error pol (utf8_decode pol r1)
          | [] => on_decode_error pol (utf8_decode pol r1)
          end
        else on_decode_error pol (utf8_decode pol r0)
      | [] => on_decode_error pol (utf8_decode pol r0)
      end
    else on_decode_error pol (utf8_decode pol r0)
  end.

(** One step of the decoder above, as CPython's decoding loop takes it:
    the code point read (or [None] for an invalid sequence) and the bytes
    left. Used in proofs through [utf8_decode_cons]. *)
Definition utf8_step (b0 : Byte.byte) (r0 : list Byte.byte)
  : option nat * list Byte.byte :=
  if Byte.to_nat b0 <? 128 then (Some (Byte.to_nat b0), r0)
  else if in_range 194 223 b0 then
    match r0 with
    | b1 :: r1 => if is_cont b1 then (Some (cp2 b0 b1), r1) else (None, r0)
    | [] => (None, r0)
    end
  else if in_range 224 239 b0 then
    match r0 with
    | b1 :: r1 =>
      if second3_ok b0 b1 then
        match r1 with
        | b2 :: r2 => if is_cont b2 then (Some (cp3 b0 b1 b2), r2) else (None, r1)
        | [] => (None, r1)
        end
      else (None, r0)
    | [] => (None, r0)
    end
  else if in_range 240 244 b0 then
    match r0 with
    | b1 :: r1 =>
      if second4_ok b0 b1 then
        match r1 with
        | b2 :: r2 =>
          if is_cont b2 then
            match r2 with
            | b3 :: r3 =>
              if is_cont b3 then (Some (cp4 b0 b1 b2 b3), r3) else (None, r2)
            | [] => (None, r2)
            end
          else (None, r1)
        | [] => (None, r1)
        end
      else (None, r0)
    | [] => (None, r0)
    end
  else (None, r0).

(** Universal newlines ([newline=None]): ["\r\n"] and ["\r"] read as ["\n"]. *)
Fixpoint translate_newlines (cs : list nat) : list nat :=
  match cs with
  | 13 :: 10 :: r => 10 :: translate_newlines r
  | 13 :: r => 10 :: translate_newlines r
  | c :: r => c :: translate_newlines r
  | [] => []
  end.

(** Iterating a text file: each line ends after a ["\n"]; a non-empty
    rest after the last ["\n"] is a last line of its own. [cur] holds the
    characters of the current line, most recent first. *)
Fixpoint text_lines_from (cur : list nat) (cs : list nat) : list (list nat) :=
  match cs with
  | [] => match cur with [] => [] | _ => [rev cur] end
  | c :: r =>
    if c =? 10 then rev (c :: cur) :: text_lines_from [] r
    else text_lines_from (c :: cur) r
  end.

Definition text_lines (cs : list nat) : list (list nat) := text_lines_from [] cs.

(** What the filesystem gives back for a file. *)
Inductive file_content :=
| Readable (bs : list Byte.byte)
| Unreadable (cause : string).

(** The [try] block of [count_lines]:
    [with open(path, 'r', encoding='utf-8', errors='ignore') as f:
         lines = sum(1 for _ in f)]
    [inl cause] is the exception caught by [except Exception as e]. *)
Definition read_line_count (c : file_content) : string + nat :=
  match c with
  | Unreadable cause => inl cause
  | Readable bs =>
    match utf8_decode open_errors bs with
    | None => inl "UnicodeDecodeError"
    | Some cs => inr (List.length (text_lines (translate_newlines cs)))
    end
  end.

Example read_line_count_ex1 :
  read_line_count (Readable (list_byte_of_string "a
b
c")) = inr 3.
Proof. reflexivity. Qed.

(* ------------------------------------------------------------------ *)
(** ** The filesystem and [os.walk] *)

(** A directory entry. [listable = false] is a directory on which
    [os.scandir] raises (e.g. no read permission). *)
Inductive node :=
| File (name : string) (content : file_content)
| Dir (name : string) (listable : bool) (children : list node).

Definition node_name (n : node) : string :=
  match n with File nm _ | Dir nm _ _ => nm end.

(** A filesystem resolves a path given on the command line. *)
Definition filesystem := string -> option node.

(** [os.path.isdir] *)
Definition isdir (fs : filesystem) (d : string) : bool :=
  match fs d with Some (Dir _ _ _) => true | _ => false end.

(** [str.endswith] *)
Definition endswith (s suffix : string) : bool :=
  let n := String.length s in
  let m := String.length suffix in
  (m <=? n) && String.eqb (substring (n - m) m s) suffix.

Definition last_char_is_slash (s : string) : bool :=
  endswith s "/".

(** [posixpath.join(a, b)] *)
Definition path_join (a b : string) : string :=
  if String.prefix "/" b then b
  else if String.eqb a "" || last_char_is_slash a then a ++ b
  else a ++ "/" ++ b.

(** The [filenames] of one [os.walk] triple, with what reading each of
    them would give. *)
Definition files_of (ch : list node) : list (string * file_content) :=
  flat_map (fun c => match c with
                     | File nm ct => [(nm, ct)]
                     | Dir _ _ _ => []
                     end) ch.

(** [os.walk(top)] with its defaults ([topdown=True], [onerror=None],
    [followlinks=False]): a directory whose listing fails yields nothing;
    otherwise [(top, dirnames, filenames)] comes first, then the walks of
    [os.path.join(top, dirname)] for each subdirectory, in listing order.
    Walking a non-directory yields nothing as well. *)
Fixpoint walk (top : string) (n : node)
  : list (string * list (string * file_content)) :=
  match n with
  | File _ _ => []
  | Dir _ false _ => []
  | Dir _ true ch =>
    (top, files_of ch)
      :: flat_map (fun c => walk (path_join top (node_name c)) c) ch
  end.

(* ------------------------------------------------------------------ *)
(** ** Output *)

Inductive stream := Stdout | Stderr.

Inductive event :=
| PerFile (path : string) (lines : nat)        (** [f"{path}: {lines} lines"] *)
| ReadWarning (path cause : string)            (** [f"Warning: could not read {path!r}: {e}"] *)
| NotDirError (d : string)                     (** [f"Error: {d!r} is not a directory"] *)
| Banner (d : string)                          (** [f"\n== Scanning {d!r} =="] *)
| RootSummary (d : string) (cpp hpp sum : nat) (** [f"\nSummary for {d!r}: ..."] *)
| Separator                                    (** ["\n" + "=" * 40] *)
| GrandTotal (k cpp hpp sum : nat).            (** [f"TOTAL across {k} dirs: ..."] *)

Definition stream_of (e : event) : stream :=
  match e with
  | ReadWarning _ _ | NotDirError _ => Stderr
  | _ => Stdout
  end.

(* ------------------------------------------------------------------ *)
(** ** [count_lines(root)] *)

(** The locals of [count_lines] and what has been printed so far. *)
Record cl_state := mk_cl_state {
  cpp_lines : nat;
  hpp_lines : nat;
  cl_out : list event
}.

Definition cl_init : cl_state := mk_cl_state 0 0 [].

(** One iteration of [for fname in filenames:]. *)
Definition process_file (dirpath : string) (s : cl_state)
    (f : string * file_content) : cl_state :=
  let (fname, content) := f in
  if negb (endswith fname ".cpp" || endswith fname ".hpp") then s
  else
    let path := path_join dirpath fname in
    match read_line_count content with
    | inl e => mk_cl_state (cpp_lines s) (hpp_lines s)
                 (cl_out s ++ [ReadWarning path e])
    | inr lines =>
      let out := cl_out s ++ [PerFile path lines] in
      if endswith fname ".cpp"
      then mk_cl_state (cpp_lines s + lines) (hpp_lines s) out
      else mk_cl_state (cpp_lines s) (hpp_lines s + lines) out
    end.

(** One iteration of [for dirpath, _, filenames in os.walk(root):]. *)
Definition process_dir (s : cl_state)
    (t : string * list (string * file_content)) : cl_state :=
  let (dirpath, filenames) := t in
  fold_left (process_file dirpath) filenames s.

Definition count_lines_walk (w : list (string * list (string * file_content)))
  : cl_state :=
  fold_left process_dir w cl_init.

(** [count_lines(root)]: the returned pair [(cpp_lines, hpp_lines)] and
    the lines printed. [os.walk] on a path that names nothing yields
    nothing. *)
Definition count_lines (fs : filesystem) (root : string)
  : (nat * nat) * list event :=
  let w := match fs root with Some n => walk root n | None => [] end in
  let s := count_lines_walk w in
  ((cpp_lines s, hpp_lines s), cl_out s).

(* ------------------------------------------------------------------ *)
(** ** [main()] *)

(** [parser.add_argument('dirs', nargs='*', default=['.'])]. *)
Definition parse_dirs (argv : list string) : list string :=
  match argv with [] => ["."] | _ => argv end.

Record main_state := mk_main_state {
  total_cpp : nat;
  total_hpp : nat;
  main_out : list event
}.

(** One iteration of [for d in args.dirs:]. *)
Definition main_step (fs : filesystem) (s : main_state) (d : string)
  : main_state :=
  if negb (isdir fs d) then
    mk_main_state (total_cpp s) (total_hpp s) (main_out s ++ [NotDirError d])
  else
    let '((cpp, hpp), out) := count_lines fs d in
    mk_main_state (total_cpp s + cpp) (total_hpp s + hpp)
      (main_out s ++ [Banner d] ++ out ++ [RootSummary d cpp hpp (cpp + hpp)]).

Definition main_dirs (fs : filesystem) (dirs : list string) : list event :=
  let s := fold_left (main_step fs) dirs (mk_main_state 0 0 []) in
  let grand_total := total_cpp s + total_hpp s in
  if 1 <? List.length dirs then
    main_out s ++ [Separator;
                   GrandTotal (List.length dirs) (total_cpp s) (total_hpp s)
                     grand_total]
  else main_out s.

(** [main()] on the command-line arguments. *)
Definition main (fs : filesystem) (argv : list string) : list event :=
  main_dirs fs (parse_dirs argv).

(* ------------------------------------------------------------------ *)
(** ** A sample tree (the scenario of the documentation) *)

Definition proj_tree : node :=
  Dir "proj" true
    [File "x.cpp" (Readable (list_byte_of_string "a
b
c
"));
     File "readme.md" (Readable (list_byte_of_string "ignored
"));
     Dir "sub" true
       [File "y.hpp" (Readable (list_byte_of_string "1
2
3
4
5"))]].

Definition proj_fs : filesystem :=
  fun p => if String.eqb p "proj" then Some proj_tree else None.

(** Two directories ["a"] and ["b"]; ["missing"] names nothing. *)
Definition ab_fs : filesystem :=
  fun p =>
    if String.eqb p "a" then
      Some (Dir "a" true [File "m.cpp" (Readable (list_byte_of_string "x
"))])
    else if String.eqb p "b" then
      Some (Dir "b" true [File "h.hpp" (Readable (list_byte_of_string "y
z
"))])
    else None.

(** A tree with a subdirectory that cannot be listed (mode [0311]: its
    file could be opened by name, but [os.scandir] fails on it). *)
Definition locked_fs : filesystem :=
  fun p =>
    if String.eqb p "root" then
      Some (Dir "root" true
              [File "a.cpp" (Readable (list_byte_of_string "x
"));
               Dir "locked" false
                 [File "b.cpp" (Readable (list_byte_of_string "y
"))]])
    else None.

Example locked_count :
  count_lines locked_fs "root" = ((1, 0), [PerFile "root/a.cpp" 1]).
Proof. reflexivity. Qed.

Example proj_count :
  count_lines proj_fs "proj"
  = ((3, 5), [PerFile "proj/x.cpp" 3; PerFile "proj/sub/y.hpp" 5]).
Proof. reflexivity. Qed.

Example proj_main :
  main proj_fs ["proj"]
  = [Banner "proj"; PerFile "proj/x.cpp" 3; PerFile "proj/sub/y.hpp" 5;
     RootSummary "proj" 3 5 8].
Proof. reflexivity. Qed.

Example decode_drops_invalid :
  utf8_decode Ignore [Byte.x61; Byte.xff; Byte.xe2; Byte.x82; Byte.x62]
  = Some [97; 98] /\
  utf8_decode Strict [Byte.x61; Byte.xff] = None.
Proof. split; reflexivity. Qed.

Example crlf_count :
  read_line_count (Readable [Byte.x61; Byte.x0d; Byte.x0a; Byte.x62; Byte.x0d])
  = inr 2.
Proof. reflexivity. Qed.

(* ------------------------------------------------------------------ *)
(** ** Notions used to state the specification *)

(** The line count a file contributes when read successfully, 0 else. *)
Definition read_count (c : file_content) : nat :=
  match read_line_count c with inr n => n | inl _ => 0 end.

(** Sum of the line counts of the successfully read files among [fs]
    whose name ends with [suffix]. *)
Definition category_total (suffix : string) (fs : list (string * file_content))
  : nat :=
  fold_right (fun '(nm, c) acc =>
                (if endswith nm suffix then read_count c else 0) + acc) 0 fs.

(** The files found in a tree: those of every directory reachable from
    its root through directories that can be listed, in any order. *)
Fixpoint found_files (n : node) : list (string * file_content) :=
  match n with
  | File _ _ => []
  | Dir _ false _ => []
  | Dir _ true ch =>
    flat_map (fun c => match c with
                       | File nm ct => [(nm, ct)]
                       | Dir _ _ _ => found_files c
                       end) ch
  end.

(** The tree with the contents of every directory that cannot be listed
    removed. *)
Fixpoint prune (n : node) : node :=
  match n with
  | File _ _ => n
  | Dir nm false _ => Dir nm false []
  | Dir nm true ch => Dir nm true (map prune ch)
  end.

(** Sum of the counts of the printed [<path>: <N> lines] lines. *)
Definition printed_total (out : list event) : nat :=
  fold_right (fun e acc => match e with PerFile _ n => n + acc | _ => acc end)
    0 out.

(** The events [count_lines] can print. *)
Definition file_event (e : event) : Prop :=
  match e with PerFile _ _ | ReadWarning _ _ => True | _ => False end.

(** The events of the grand-total block. *)
Definition total_event (e : event) : bool :=
  match e with Separator | GrandTotal _ _ _ _ => true | _ => false end.

(** The suffix test at the top of the loop of [count_lines]. *)
Definition is_matching (fname : string) : bool :=
  endswith fname ".cpp" || endswith fname ".hpp".

(** What one iteration of [for fname in filenames:] prints. *)
Definition file_output (dirpath fname : string) (c : file_content) : list event :=
  if is_matching fname then
    match read_line_count c with
    | inl e => [ReadWarning (path_join dirpath fname) e]
    | inr n => [PerFile (path_join dirpath fname) n]
    end
  else [].

(** Sum of [g] over a list of files. *)
Definition files_sum (g : string * file_content -> nat)
    (fs : list (string * file_content)) : nat :=
  fold_right (fun f acc => g f + acc) 0 fs.

(** Number of events of a list satisfying [p]. *)
Definition count_events (p : event -> bool) (out : list event) : nat :=
  List.length (filter p out).

Definition is_per_file (e : event) : bool :=
  match e with PerFile _ _ => true | _ => false end.

Definition is_read_warning (e : event) : bool :=
  match e with ReadWarning _ _ => true | _ => false end.

Definition is_readable (c : file_content) : bool :=
  match read_line_count c with inr _ => true | inl _ => false end.

(** A printed per-file line or warning names a [.cpp] or [.hpp] path. *)
Definition printed_path_ok (e : event) : Prop :=
  match e with
  | PerFile p _ | ReadWarning p _ => is_matching p = true
  | _ => False
  end.

(** What one iteration of [for d in args.dirs:] prints. *)
Definition root_output (fs : filesystem) (d : string) : list event :=
  if isdir fs d then
    let '((cpp, hpp), out) := count_lines fs d in
    [Banner d] ++ out ++ [RootSummary d cpp hpp (cpp + hpp)]
  else [NotDirError d].

(** Sum of a component of the totals of the arguments that are
    directories. *)
Definition valid_total (proj : nat * nat -> nat) (fs : filesystem)
    (dirs : list string) : nat :=
  fold_right (fun d acc =>
                (if isdir fs d then proj (fst (count_lines fs d)) else 0) + acc)
    0 dirs.

(* ================================================================== *)
(** * Lemmas *)

(* ------------------------------------------------------------------ *)
(** ** The decoder *)

Lemma list_strong_ind (A : Type) (P : list A -> Prop) :
  (forall l, (forall l', List.length l' < List.length l -> P l') -> P l) ->
  forall l, P l.
Proof.
  intros H l. remember (List.length l) as n eqn:Hn.
  revert l Hn. induction n as [n IHn] using lt_wf_ind.
  intros l ->. apply H. intros l' Hl'. apply (IHn _ Hl' l' eq_refl).
Qed.

(** Unfold one step of [utf8_decode] on [b0 :: r0] and split on every
    test it makes. *)
Ltac decode_cases :=
  simpl utf8_decode in *;
  repeat match goal with
  | H : context [if ?c then _ else _] |- _ =>
      destruct c eqn:?; cbv beta iota delta [on_decode_error] in *
  | |- context [if ?c then _ else _] =>
      destruct c eqn:?; cbv beta iota delta [on_decode_error] in *
  | H : context [match ?l with [] => _ | _ :: _ => _ end] |- _ =>
      destruct l; cbv beta iota delta [on_decode_error] in *
  | |- context [match ?l with [] => _ | _ :: _ => _ end] =>
      destruct l; cbv beta iota delta [on_decode_error] in *
  end.

Lemma utf8_decode_ignore_total (bs : list Byte.byte) :
  exists cs, utf8_decode Ignore bs = Some cs.
Proof.
  induction bs as [bs IH] using list_strong_ind.
  destruct bs as [|b0 r0]; [exists []; reflexivity|].
  decode_cases;
  match goal with
  | |- context [utf8_decode Ignore ?r] =>
      destruct (IH r ltac:(simpl; lia)) as [cs ->]
  end; eexists; reflexivity.
Qed.

Lemma utf8_decode_cons (pol : errors_policy) (b0 : Byte.byte) (r0 : list Byte.byte) :
  utf8_decode pol (b0 :: r0)
  = match utf8_step b0 r0 with
    | (Some c, rest) => option_map (cons c) (utf8_decode pol rest)
    | (None, rest) => on_decode_error pol (utf8_decode pol rest)
    end.
Proof.
  unfold utf8_step. decode_cases; reflexivity.
Qed.

Lemma utf8_step_length (b0 : Byte.byte) (r0 : list Byte.byte) :
  List.length (snd (utf8_step b0 r0)) <= List.length r0.
Proof.
  unfold utf8_step.
  repeat match goal with
  | |- context [if ?c then _ else _] => destruct c
  | |- context [match ?l with [] => _ | _ :: _ => _ end] => destruct l
  end; simpl; lia.
Qed.

Lemma in_range_below (lo hi : nat) (b : Byte.byte) :
  Byte.to_nat b < lo -> in_range lo hi b = false.
Proof.
  intros H. unfold in_range.
  replace (lo <=? Byte.to_nat b) with false by (symmetry; apply Nat.leb_gt; lia).
  reflexivity.
Qed.

Lemma ascii_not_cont (b : Byte.byte) :
  Byte.to_nat b < 128 -> is_cont b = false.
Proof. intros H. apply in_range_below; lia. Qed.

Lemma ascii_not_second3 (b0 b : Byte.byte) :
  Byte.to_nat b < 128 -> second3_ok b0 b = false.
Proof.
  intros H. unfold second3_ok.
  destruct (_ =? 224); [|destruct (_ =? 237)];
    (apply in_range_below || apply ascii_not_cont); lia.
Qed.

Lemma ascii_not_second4 (b0 b : Byte.byte) :
  Byte.to_nat b < 128 -> second4_ok b0 b = false.
Proof.
  intros H. unfold second4_ok.
  destruct (_ =? 240); [|destruct (_ =? 244)];
    (apply in_range_below || apply ascii_not_cont); lia.
Qed.

(** An ASCII byte is never part of a multi-byte sequence: a step never
    looks past it. *)
Lemma utf8_step_app_ascii (b0 : Byte.byte) (r0 : list Byte.byte)
    (b : Byte.byte) (r : list Byte.byte) :
  Byte.to_nat b < 128 ->
  utf8_step b0 (r0 ++ b :: r)
  = (fst (utf8_step b0 r0), snd (utf8_step b0 r0) ++ b :: r).
Proof.
  intros Hb.
  destruct r0 as [|b1 [|b2 [|b3 r3]]]; cbn [app]; unfold utf8_step;
  rewrite ?(ascii_not_cont b Hb), ?(ascii_not_second3 b0 b Hb),
    ?(ascii_not_second4 b0 b Hb);
  repeat match goal with
  | |- context [if ?c then _ else _] => destruct c
  end; reflexivity.
Qed.

Lemma in_range_true (lo hi : nat) (b : Byte.byte) :
  in_range lo hi b = true -> lo <= Byte.to_nat b <= hi.
Proof.
  unfold in_range. intros H. apply andb_prop in H as [H1 H2].
  apply Nat.leb_le in H1, H2. lia.
Qed.

(** Read the tests taken by a step as bounds on the bytes. *)
Ltac byte_bounds :=
  unfold second3_ok, second4_ok, is_cont in *;
  repeat match goal with
  | H : context [if ?c then _ else _] |- _ => destruct c eqn:?
  end;
  repeat match goal with
  | H : in_range _ _ _ = true |- _ => apply in_range_true in H
  | H : (_ =? _) = true |- _ => apply Nat.eqb_eq in H
  | H : (_ =? _) = false |- _ => apply Nat.eqb_neq in H
  | H : (_ <? _) = false |- _ => apply Nat.ltb_ge in H
  | H : (_ <? _) = true |- _ => apply Nat.ltb_lt in H
  end.

(** The only code point below 128 a step yields is the ASCII byte it
    starts from: multi-byte sequences encode 128 or more. *)
Lemma utf8_step_small (b0 : Byte.byte) (r0 rest : list Byte.byte) (c : nat) :
  utf8_step b0 r0 = (Some c, rest) -> c < 128 -> c = Byte.to_nat b0.
Proof.
  unfold utf8_step. intros Hs Hc.
  repeat match goal with
  | H : context [if ?c then _ else _] |- _ => destruct c eqn:?
  | H : context [match ?l with [] => _ | _ :: _ => _ end] |- _ => destruct l
  end; try discriminate; injection Hs as <- <-; [reflexivity| | |];
  byte_bounds; unfold cp2, cp3, cp4 in *; lia.
Qed.

Lemma utf8_step_rest_in (b0 : Byte.byte) (r0 : list Byte.byte) (b : Byte.byte) :
  In b (snd (utf8_step b0 r0)) -> In b r0.
Proof.
  unfold utf8_step.
  repeat match goal with
  | |- context [if ?c then _ else _] => destruct c
  | |- context [match ?l with [] => _ | _ :: _ => _ end] => destruct l
  end; simpl; tauto.
Qed.

Lemma utf8_decode_strict_ignore (bs : list Byte.byte) (cs : list nat) :
  utf8_decode Strict bs = Some cs -> utf8_decode Ignore bs = Some cs.
Proof.
  revert cs. induction bs as [bs IH] using list_strong_ind. intros cs H.
  destruct bs as [|b0 r0]; [exact H|].
  rewrite utf8_decode_cons in H |- *.
  pose proof (utf8_step_length b0 r0) as Hlen.
  destruct (utf8_step b0 r0) as [[c|] rest]; simpl in Hlen; [|discriminate].
  destruct (utf8_decode Strict rest) as [cs'|] eqn:E; [|discriminate].
  rewrite (IH rest ltac:(simpl; lia) cs' E). exact H.
Qed.

(** [errors='ignore'] decoding of a line followed by an ASCII byte. *)
Lemma utf8_decode_app_ascii (l r : list Byte.byte) (b : Byte.byte)
    (cl cr : list nat) :
  Byte.to_nat b < 128 ->
  utf8_decode Ignore l = Some cl -> utf8_decode Ignore r = Some cr ->
  utf8_decode Ignore (l ++ b :: r) = Some (cl ++ Byte.to_nat b :: cr).
Proof.
  intros Hb. revert cl. induction l as [l IH] using list_strong_ind.
  intros cl Hl Hr. destruct l as [|b0 r0].
  - injection Hl as <-. cbn [app]. rewrite utf8_decode_cons. unfold utf8_step.
    replace (Byte.to_nat b <? 128) with true by (symmetry; apply Nat.ltb_lt; exact Hb).
    rewrite Hr. reflexivity.
  - rewrite <- app_comm_cons, !utf8_decode_cons.
    rewrite utf8_decode_cons in Hl.
    rewrite (utf8_step_app_ascii b0 r0 b r Hb).
    pose proof (utf8_step_length b0 r0) as Hlen.
    destruct (utf8_step b0 r0) as [[c|] rest]; simpl in Hlen |- *.
    + destruct (utf8_decode Ignore rest) as [cl'|] eqn:E; [|discriminate].
      injection Hl as <-.
      rewrite (IH rest ltac:(simpl; lia) cl' E Hr). reflexivity.
    + exact (IH rest ltac:(simpl; lia) cl Hl Hr).
Qed.

(** Every code point below 128 in the decoded text is a byte of the file. *)
Lemma utf8_decode_small_in (pol : errors_policy) (bs : list Byte.byte)
    (cs : list nat) (c : nat) :
  utf8_decode pol bs = Some cs -> In c cs -> c < 128 ->
  exists b, In b bs /\ Byte.to_nat b = c.
Proof.
  revert cs. induction bs as [bs IH] using list_strong_ind.
  intros cs H Hin Hc. destruct bs as [|b0 r0].
  { injection H as <-. destruct Hin. }
  rewrite utf8_decode_cons in H.
  pose proof (utf8_step_length b0 r0) as Hlen.
  pose proof (utf8_step_small b0 r0) as Hsmall.
  pose proof (utf8_step_rest_in b0 r0) as Hrest.
  destruct (utf8_step b0 r0) as [[c'|] rest]; simpl in Hlen, Hrest.
  - destruct (utf8_decode pol rest) as [cs'|] eqn:E; [|discriminate].
    injection H as <-. destruct Hin as [<-|Hin].
    + exists b0. split; [left; reflexivity|]. symmetry. exact (Hsmall _ _ eq_refl Hc).
    + destruct (IH rest ltac:(simpl; lia) cs' E Hin Hc) as [b [Hb Hbc]].
      exists b. split; [right; apply Hrest; exact Hb | exact Hbc].
  - destruct pol; [discriminate|]. simpl in H.
    destruct (IH rest ltac:(simpl; lia) cs H Hin Hc) as [b [Hb Hbc]].
    exists b. split; [right; apply Hrest; exact Hb | exact Hbc].
Qed.

(* ------------------------------------------------------------------ *)
(** ** Newlines and lines *)

Lemma translate_newlines_other (c : nat) (r : list nat) :
  c <> 13 -> translate_newlines (c :: r) = c :: translate_newlines r.
Proof.
  intros H. do 13 (destruct c as [|c]; [reflexivity|]).
  destruct c as [|c]; [congruence|reflexivity].
Qed.

Lemma translate_newlines_no_cr (cs : list nat) :
  ~ In 13 cs -> translate_newlines cs = cs.
Proof.
  induction cs as [|c cs IH]; intros H; [reflexivity|].
  rewrite translate_newlines_other by (intros ->; apply H; left; reflexivity).
  f_equal. apply IH. intros Hin. apply H. right. exact Hin.
Qed.

Lemma text_lines_from_line (cur x r : list nat) :
  ~ In 10 x ->
  List.length (text_lines_from cur (x ++ 10 :: r))
  = S (List.length (text_lines_from [] r)).
Proof.
  revert cur. induction x as [|c x IH]; intros cur H; [reflexivity|].
  simpl. replace (c =? 10) with false
    by (symmetry; apply Nat.eqb_neq; intros ->; apply H; left; reflexivity).
  apply IH. intros Hin. apply H. right. exact Hin.
Qed.

Lemma text_lines_from_last (cur y : list nat) :
  ~ In 10 y ->
  List.length (text_lines_from cur y)
  = match cur ++ y with [] => 0 | _ => 1 end.
Proof.
  revert cur. induction y as [|c y IH]; intros cur H.
  - rewrite app_nil_r. destruct cur; reflexivity.
  - simpl. replace (c =? 10) with false
      by (symmetry; apply Nat.eqb_neq; intros ->; apply H; left; reflexivity).
    rewrite IH by (intros Hin; apply H; right; exact Hin).
    destruct cur; reflexivity.
Qed.

(** A line of a file in the sense of universal newlines: no LF, no CR. *)
Definition no_line_break (l : list Byte.byte) : Prop :=
  ~ In Byte.x0a l /\ ~ In Byte.x0d l.

Lemma to_nat_x0a (b : Byte.byte) : Byte.to_nat b = 10 -> b = Byte.x0a.
Proof.
  intros H. pose proof (Byte.of_to_nat b) as E. rewrite H in E.
  injection E as <-. reflexivity.
Qed.

Lemma to_nat_x0d (b : Byte.byte) : Byte.to_nat b = 13 -> b = Byte.x0d.
Proof.
  intros H. pose proof (Byte.of_to_nat b) as E. rewrite H in E.
  injection E as <-. reflexivity.
Qed.

Lemma decode_no_line_break (pol : errors_policy) (l : list Byte.byte)
    (cl : list nat) :
  no_line_break l -> utf8_decode pol l = Some cl -> ~ In 10 cl /\ ~ In 13 cl.
Proof.
  intros [H10 H13] Hd. split; intros Hin.
  - destruct (utf8_decode_small_in pol l cl 10 Hd Hin ltac:(lia)) as [b [Hb Hbn]].
    apply to_nat_x0a in Hbn. subst b. exact (H10 Hb).
  - destruct (utf8_decode_small_in pol l cl 13 Hd Hin ltac:(lia)) as [b [Hb Hbn]].
    apply to_nat_x0d in Hbn. subst b. exact (H13 Hb).
Qed.

Lemma decode_terminated_lines (ls : list (list Byte.byte)) (t : list Byte.byte)
    (ct : list nat) :
  Forall no_line_break ls -> utf8_decode Ignore t = Some ct ->
  exists xs, List.length xs = List.length ls /\
    Forall (fun x => ~ In 10 x /\ ~ In 13 x) xs /\
    utf8_decode Ignore (List.concat (map (fun l => l ++ [Byte.x0a]) ls) ++ t)
    = Some (List.concat (map (fun x => x ++ [10]) xs) ++ ct).
Proof.
  intros Hls Ht. induction Hls as [|l ls Hl Hls IH].
  - exists []. repeat split; [constructor | exact Ht].
  - destruct IH as [xs [Hlen [Hxs Hd]]].
    destruct (utf8_decode_ignore_total l) as [cl Hcl].
    exists (cl :: xs). split; [simpl; rewrite Hlen; reflexivity|]. split.
    + constructor; [exact (decode_no_line_break Ignore l cl Hl Hcl)|exact Hxs].
    + simpl. rewrite <- !app_assoc. simpl.
      rewrite (utf8_decode_app_ascii l _ Byte.x0a cl _ ltac:(simpl; lia) Hcl Hd).
      reflexivity.
Qed.

Lemma text_lines_terminated (xs : list (list nat)) (y : list nat) :
  Forall (fun x => ~ In 10 x /\ ~ In 13 x) xs -> ~ In 10 y ->
  List.length (text_lines (List.concat (map (fun x => x ++ [10]) xs) ++ y))
  = List.length xs + match y with [] => 0 | _ => 1 end.
Proof.
  unfold text_lines. intros Hxs Hy. induction Hxs as [|x xs [Hx _] Hxs IH].
  - simpl. rewrite text_lines_from_last by exact Hy. reflexivity.
  - simpl. rewrite <- !app_assoc. simpl.
    rewrite text_lines_from_line by exact Hx. rewrite IH. reflexivity.
Qed.

Lemma concat_terminated_no_cr (xs : list (list nat)) (y : list nat) :
  Forall (fun x => ~ In 10 x /\ ~ In 13 x) xs -> ~ In 13 y ->
  ~ In 13 (List.concat (map (fun x => x ++ [10]) xs) ++ y).
Proof.
  intros Hxs Hy. induction Hxs as [|x xs [_ Hx] Hxs IH]; [exact Hy|].
  simpl. rewrite <- !app_assoc. intros Hin.
  apply in_app_or in Hin as [Hin|[Heq|Hin]];
    [exact (Hx Hin) | discriminate | exact (IH Hin)].
Qed.

Lemma utf8_decode_strict_nonempty (b0 : Byte.byte) (r0 : list Byte.byte)
    (cs : list nat) :
  utf8_decode Strict (b0 :: r0) = Some cs -> cs <> [].
Proof.
  rewrite utf8_decode_cons.
  destruct (utf8_step b0 r0) as [[c|] rest]; simpl; [|discriminate].
  destruct (utf8_decode Strict rest); simpl; intros H; [|discriminate].
  injection H as <-. discriminate.
Qed.

(* ------------------------------------------------------------------ *)
(** ** Traversal *)

(** Induction on trees, with the hypothesis on every child. *)
Fixpoint node_ind' (P : node -> Prop)
    (HF : forall nm c, P (File nm c))
    (HD : forall nm b ch, Forall P ch -> P (Dir nm b ch)) (n : node) : P n :=
  match n with
  | File nm c => HF nm c
  | Dir nm b ch =>
    HD nm b ch
      ((fix go (l : list node) : Forall P l :=
          match l with
          | [] => Forall_nil P
          | x :: r => Forall_cons x (node_ind' P HF HD x) (go r)
          end) ch)
  end.

Lemma endswith_cpp_not_hpp (fname : string) :
  endswith fname ".cpp" = true -> endswith fname ".hpp" = false.
Proof.
  unfold endswith. intros H.
  apply andb_prop in H as [_ H]. apply String.eqb_eq in H.
  simpl String.length in *. rewrite H. apply andb_false_r.
Qed.

Lemma fold_left_invariant {A B : Type} (P : A -> Prop) (f : A -> B -> A)
    (l : list B) (a : A) :
  (forall a b, P a -> P (f a b)) -> P a -> P (fold_left f l a).
Proof.
  intros Hf. revert a. induction l as [|b l IH]; intros a Ha; simpl;
    [exact Ha | apply IH, Hf, Ha].
Qed.

Lemma process_file_cpp (dp : string) (s : cl_state) (f : string * file_content) :
  cpp_lines (process_file dp s f)
  = cpp_lines s + (if endswith (fst f) ".cpp" then read_count (snd f) else 0).
Proof.
  destruct f as [fname c]. unfold process_file, read_count. simpl.
  destruct (endswith fname ".cpp") eqn:Ec; simpl.
  - destruct (read_line_count c); simpl; lia.
  - destruct (endswith fname ".hpp"); simpl; [|lia].
    destruct (read_line_count c); simpl; lia.
Qed.

Lemma process_file_hpp (dp : string) (s : cl_state) (f : string * file_content) :
  hpp_lines (process_file dp s f)
  = hpp_lines s + (if endswith (fst f) ".hpp" then read_count (snd f) else 0).
Proof.
  destruct f as [fname c]. unfold process_file, read_count. simpl.
  destruct (endswith fname ".cpp") eqn:Ec; simpl.
  - rewrite (endswith_cpp_not_hpp fname Ec).
    destruct (read_line_count c); simpl; lia.
  - destruct (endswith fname ".hpp"); simpl; [|lia].
    destruct (read_line_count c); simpl; lia.
Qed.

Lemma category_total_app (suffix : string) (a b : list (string * file_content)) :
  category_total suffix (a ++ b) = category_total suffix a + category_total suffix b.
Proof.
  induction a as [|[nm c] a IH]; simpl; [reflexivity|]. rewrite IH. lia.
Qed.

Lemma category_total_cons (suffix nm : string) (c : file_content)
    (fs : list (string * file_content)) :
  category_total suffix ((nm, c) :: fs)
  = (if endswith nm suffix then read_count c else 0) + category_total suffix fs.
Proof. reflexivity. Qed.

Lemma fold_files_totals (dp : string) (fs : list (string * file_content))
    (s : cl_state) :
  cpp_lines (fold_left (process_file dp) fs s)
  = cpp_lines s + category_total ".cpp" fs /\
  hpp_lines (fold_left (process_file dp) fs s)
  = hpp_lines s + category_total ".hpp" fs.
Proof.
  revert s. induction fs as [|[nm c] fs IH]; intros s; cbn [fold_left];
    [simpl; lia|].
  destruct (IH (process_file dp s (nm, c))) as [H1 H2].
  rewrite H1, H2, process_file_cpp, process_file_hpp, !category_total_cons.
  simpl. lia.
Qed.

Lemma fold_dirs_totals (w : list (string * list (string * file_content)))
    (s : cl_state) :
  cpp_lines (fold_left process_dir w s)
  = cpp_lines s + category_total ".cpp" (flat_map snd w) /\
  hpp_lines (fold_left process_dir w s)
  = hpp_lines s + category_total ".hpp" (flat_map snd w).
Proof.
  revert s. induction w as [|[dp fs] w IH]; intros s; cbn [fold_left flat_map process_dir snd];
    [simpl; lia|].
  destruct (IH (fold_left (process_file dp) fs s)) as [H1 H2].
  destruct (fold_files_totals dp fs s) as [H3 H4].
  rewrite H1, H2, H3, H4, !category_total_app. lia.
Qed.

Lemma walk_found_files (suffix : string) (n : node) (top : string) :
  category_total suffix (flat_map snd (walk top n))
  = category_total suffix (found_files n).
Proof.
  revert top. induction n as [nm c|nm b ch Hch] using node_ind'; intros top;
    [reflexivity|].
  destruct b; [|reflexivity].
  simpl. rewrite category_total_app.
  induction Hch as [|c ch Hc Hch IH]; [reflexivity|].
  simpl. rewrite flat_map_app, !category_total_app.
  destruct c as [nm' ct|nm' b' ch']; simpl in *.
  - rewrite <- IH. simpl. lia.
  - rewrite (Hc (path_join top nm')), <- IH. simpl. lia.
Qed.

Lemma printed_total_app (a b : list event) :
  printed_total (a ++ b) = printed_total a + printed_total b.
Proof.
  induction a as [|e a IH]; simpl; [reflexivity|].
  rewrite IH. destruct e; lia.
Qed.

Lemma process_file_printed (dp : string) (s : cl_state) (f : string * file_content) :
  cpp_lines s + hpp_lines s = printed_total (cl_out s) ->
  cpp_lines (process_file dp s f) + hpp_lines (process_file dp s f)
  = printed_total (cl_out (process_file dp s f)).
Proof.
  intros H. destruct f as [fname c]. unfold process_file.
  destruct (negb _); [exact H|].
  destruct (read_line_count c) as [e|n]; [|destruct (endswith fname ".cpp")];
    cbn [cpp_lines hpp_lines cl_out]; rewrite printed_total_app; simpl; lia.
Qed.

Lemma process_file_events (dp : string) (s : cl_state) (f : string * file_content) :
  (forall e, In e (cl_out s) -> file_event e) ->
  forall e, In e (cl_out (process_file dp s f)) -> file_event e.
Proof.
  intros H. destruct f as [fname c]. unfold process_file.
  destruct (negb _); [exact H|].
  destruct (read_line_count c) as [e|n];
    [|destruct (endswith fname ".cpp")]; simpl;
    intros e' He'; apply in_app_or in He' as [He'|[<-|[]]];
    solve [apply H; exact He' | exact I].
Qed.

Lemma files_of_prune (ch : list node) : files_of (map prune ch) = files_of ch.
Proof.
  induction ch as [|c ch IH]; [reflexivity|].
  destruct c as [nm ct|nm [|] ch']; simpl; rewrite IH; reflexivity.
Qed.

Lemma walk_prune (n : node) (top : string) : walk top (prune n) = walk top n.
Proof.
  revert top. induction n as [nm c|nm b ch Hch] using node_ind'; intros top;
    [reflexivity|].
  destruct b; [|reflexivity].
  simpl. rewrite files_of_prune. f_equal.
  induction Hch as [|c ch Hc Hch IH]; [reflexivity|].
  simpl. rewrite IH.
  assert (Hn : node_name (prune c) = node_name c)
    by (destruct c as [|? [|] ?]; reflexivity).
  rewrite Hn, Hc. reflexivity.
Qed.

(* ------------------------------------------------------------------ *)
(** ** [count_lines] and [main] *)

Lemma count_lines_printed_total (fs : filesystem) (root : string) :
  fst (fst (count_lines fs root)) + snd (fst (count_lines fs root))
  = printed_total (snd (count_lines fs root)).
Proof.
  unfold count_lines, count_lines_walk. simpl.
  apply (fold_left_invariant
           (fun s => cpp_lines s + hpp_lines s = printed_total (cl_out s)));
    [|reflexivity].
  intros s [dp fs'] H. unfold process_dir.
  apply (fold_left_invariant
           (fun s => cpp_lines s + hpp_lines s = printed_total (cl_out s)));
    [|exact H].
  intros s' f. apply process_file_printed.
Qed.

Lemma count_lines_file_events (fs : filesystem) (root : string) (e : event) :
  In e (snd (count_lines fs root)) -> file_event e.
Proof.
  unfold count_lines, count_lines_walk. simpl. revert e.
  apply (fold_left_invariant
           (fun s => forall e, In e (cl_out s) -> file_event e));
    [|intros e []].
  intros s [dp fs'] H. unfold process_dir.
  apply (fold_left_invariant
           (fun s => forall e, In e (cl_out s) -> file_event e)); [|exact H].
  intros s' f. apply process_file_events.
Qed.

Lemma main_out_no_total (fs : filesystem) (dirs : list string) (e : event) :
  In e (main_out (fold_left (main_step fs) dirs (mk_main_state 0 0 []))) ->
  total_event e = false.
Proof.
  revert e.
  apply (fold_left_invariant
           (fun s => forall e, In e (main_out s) -> total_event e = false));
    [|intros e []].
  intros s d H e He. unfold main_step in He.
  destruct (negb (isdir fs d)).
  - simpl in He. apply in_app_or in He as [He|[<-|[]]]; [exact (H e He)|reflexivity].
  - pose proof (count_lines_file_events fs d) as Hev.
    destruct (count_lines fs d) as [[c h] o]. simpl in He, Hev.
    apply in_app_or in He as [He|He]; [exact (H e He)|].
    simpl in He. destruct He as [<-|He]; [reflexivity|].
    apply in_app_or in He as [He|[<-|[]]]; [|reflexivity].
    specialize (Hev e He). destruct e; simpl in Hev; tauto.
Qed.

(* ================================================================== *)
(** * The specification *)

(** C1. For every root directory, [count_lines(root)] returns the sum of
    the line counts of the successfully read [.cpp] files found anywhere
    in the subtree, nested directories included, and the same sum for the
    [.hpp] files. *)
Theorem count_lines_category_totals (fs : filesystem) (root : string) (t : node) :
  fs root = Some t ->
  fst (count_lines fs root)
  = (category_total ".cpp" (found_files t), category_total ".hpp" (found_files t)).
Proof.
  intros H. unfold count_lines, count_lines_walk. rewrite H. simpl.
  destruct (fold_dirs_totals (walk root t) cl_init) as [H1 H2].
  rewrite H1, H2, !walk_found_files. reflexivity.
Qed.

(** C2. A file made of [N] LF-terminated lines followed by a last,
    unterminated, non-empty line of valid text is reported as [N + 1]
    lines; an empty file as 0 lines. (A line here holds no LF and no CR:
    universal newlines make a CR a line end too.) *)
Theorem read_line_count_terminated_lines (ls : list (list Byte.byte))
    (t : list Byte.byte) :
  Forall no_line_break ls -> no_line_break t ->
  t <> [] -> utf8_decode Strict t <> None ->
  read_line_count
    (Readable (List.concat (map (fun l => l ++ [Byte.x0a]) ls) ++ t))
  = inr (List.length ls + 1) /\
  read_line_count (Readable []) = inr 0.
Proof.
  intros Hls Ht Hne Hvalid. split; [|reflexivity].
  destruct (utf8_decode Strict t) as [ct|] eqn:Es; [|congruence].
  pose proof (utf8_decode_strict_ignore t ct Es) as Ei.
  assert (Hct : ct <> []).
  { destruct t as [|b0 r0]; [congruence|].
    exact (utf8_decode_strict_nonempty b0 r0 ct Es). }
  destruct (decode_no_line_break Ignore t ct Ht Ei) as [Hct10 Hct13].
  destruct (decode_terminated_lines ls t ct Hls Ei) as [xs [Hlen [Hxs Hd]]].
  unfold read_line_count, open_errors. rewrite Hd.
  rewrite translate_newlines_no_cr by exact (concat_terminated_no_cr xs ct Hxs Hct13).
  rewrite text_lines_terminated by assumption.
  destruct ct; [congruence|]. rewrite Hlen. reflexivity.
Qed.

(** C3 (counterexample). With ["a"] and ["b"] directories and
    ["missing"] naming nothing, the grand-total line does not report the
    2 valid roots: it reports [TOTAL across 3 dirs]. *)
Lemma main_missing_root_counts_all_args :
  In (NotDirError "missing") (main ab_fs ["a"; "missing"; "b"]) /\
  In (GrandTotal 3 1 2 3) (main ab_fs ["a"; "missing"; "b"]) /\
  ~ (exists c h t, In (GrandTotal 2 c h t) (main ab_fs ["a"; "missing"; "b"])).
Proof.
  vm_compute. split; [tauto|]. split; [tauto|].
  intros [c [h [t Hin]]].
  repeat (destruct Hin as [Hin|Hin]; [discriminate|]). exact Hin.
Qed.

(** C3 (amended). For [[a; m; b]] where [a] and [b] are directories and
    [m] is not: an error line for [m] is printed between the scans of [a]
    and [b], which both run; the grand totals are the sums over [a] and
    [b] only; the grand-total line reports [K = 3], the number of
    arguments given, invalid ones included. *)
Theorem main_skips_missing_root (fs : filesystem) (a m b : string) :
  isdir fs a = true -> isdir fs m = false -> isdir fs b = true ->
  let '((ca, ha), oa) := count_lines fs a in
  let '((cb, hb), ob) := count_lines fs b in
  main fs [a; m; b]
  = [Banner a] ++ oa ++ [RootSummary a ca ha (ca + ha); NotDirError m; Banner b]
    ++ ob ++ [RootSummary b cb hb (cb + hb); Separator;
              GrandTotal 3 (ca + cb) (ha + hb) (ca + cb + (ha + hb))].
Proof.
  intros Ha Hm Hb. unfold main, main_dirs. simpl parse_dirs.
  cbn [fold_left]. unfold main_step. rewrite Ha, Hm, Hb. simpl negb.
  destruct (count_lines fs a) as [[ca ha] oa].
  destruct (count_lines fs b) as [[cb hb] ob].
  cbn -[app]. rewrite <- !app_assoc. reflexivity.
Qed.

(** C4. A [.cpp] or [.hpp] file that cannot be opened or read gives
    exactly one warning naming its path and the cause, no per-file line,
    leaves both counters as they were, and the loop goes on with the next
    file. *)
Theorem unreadable_file_skipped (dp fname cause : string)
    (fs1 fs2 : list (string * file_content)) (s : cl_state) :
  (endswith fname ".cpp" || endswith fname ".hpp") = true ->
  fold_left (process_file dp) (fs1 ++ (fname, Unreadable cause) :: fs2) s
  = let s1 := fold_left (process_file dp) fs1 s in
    fold_left (process_file dp) fs2
      (mk_cl_state (cpp_lines s1) (hpp_lines s1)
         (cl_out s1 ++ [ReadWarning (path_join dp fname) cause])).
Proof.
  intros H. rewrite fold_left_app. cbn [fold_left]. f_equal.
  unfold process_file. rewrite H. reflexivity.
Qed.

(** C5. A file's count goes to the [.cpp] counter iff its name ends with
    [.cpp] and to the [.hpp] counter iff it ends with [.hpp], never both;
    a file with neither suffix changes nothing and prints nothing. *)
Theorem file_category_counter (dp : string) (s : cl_state) (fname : string)
    (c : file_content) :
  let s' := process_file dp s (fname, c) in
  cpp_lines s' = cpp_lines s + (if endswith fname ".cpp" then read_count c else 0) /\
  hpp_lines s' = hpp_lines s + (if endswith fname ".hpp" then read_count c else 0) /\
  (endswith fname ".cpp" && endswith fname ".hpp") = false /\
  (endswith fname ".cpp" = false -> endswith fname ".hpp" = false -> s' = s).
Proof.
  cbv zeta. split; [apply (process_file_cpp dp s (fname, c))|].
  split; [apply (process_file_hpp dp s (fname, c))|].
  split.
  - destruct (endswith fname ".cpp") eqn:E; [|reflexivity].
    rewrite (endswith_cpp_not_hpp fname E). reflexivity.
  - intros H1 H2. unfold process_file. rewrite H1, H2. reflexivity.
Qed.

(** C6. The separator and the [TOTAL across <K> dirs] line are printed
    iff more than one path is given on the command line; with one path,
    or none (the default ["."]), there is no grand-total block. *)
Theorem grand_total_block_iff (fs : filesystem) (argv : list string) :
  (In Separator (main fs argv) <-> 1 < List.length argv) /\
  ((exists k c h t, In (GrandTotal k c h t) (main fs argv))
   <-> 1 < List.length argv).
Proof.
  assert (Hlen : (1 <? List.length (parse_dirs argv)) = (1 <? List.length argv))
    by (destruct argv; reflexivity).
  unfold main, main_dirs. rewrite Hlen.
  pose proof (main_out_no_total fs (parse_dirs argv)) as Hno.
  destruct (1 <? List.length argv) eqn:E.
  - apply Nat.ltb_lt in E. split; split; intros _; try exact E.
    + apply in_or_app. right. left. reflexivity.
    + do 4 eexists. apply in_or_app. right. right. left. reflexivity.
  - apply Nat.ltb_ge in E. split; split; intros H; try lia.
    + specialize (Hno _ H). discriminate.
    + destruct H as [k [c [h [t H]]]]. specialize (Hno _ H). discriminate.
Qed.

(** C7. For a directory [r], the arguments [[r; r]] give grand totals
    twice those of [r]: the output is the scan of [r] twice followed by
    [TOTAL across 2 dirs] with the doubled counts. *)
Theorem main_same_root_twice (fs : filesystem) (r : string) :
  isdir fs r = true ->
  let '((c, h), o) := count_lines fs r in
  main fs [r; r]
  = [Banner r] ++ o ++ [RootSummary r c h (c + h)]
    ++ [Banner r] ++ o ++ [RootSummary r c h (c + h); Separator;
                           GrandTotal 2 (2 * c) (2 * h) (2 * (c + h))].
Proof.
  intros Hr. unfold main, main_dirs. simpl parse_dirs.
  cbn [fold_left]. unfold main_step. rewrite Hr. simpl negb.
  destruct (count_lines fs r) as [[c h] o].
  cbn -[app Nat.mul]. rewrite <- !app_assoc.
  replace (2 * c) with (c + c) by lia. replace (2 * h) with (h + h) by lia.
  replace (2 * (c + h)) with (c + c + (h + h)) by lia. reflexivity.
Qed.

(** C8. For every root, the [.cpp] total plus the [.hpp] total returned
    by [count_lines] is the sum of the counts of the per-file lines it
    prints. *)
Theorem count_lines_sum_printed (fs : filesystem) (root : string) :
  let '((cpp, hpp), out) := count_lines fs root in
  cpp + hpp = printed_total out.
Proof.
  pose proof (count_lines_printed_total fs root) as H.
  destruct (count_lines fs root) as [[cpp hpp] out]. exact H.
Qed.

(** C9. Reading any byte content never fails on decoding: with
    [errors='ignore'] the decoder always succeeds, and the per-file count
    is the number of lines of the decoded text. *)
Theorem read_line_count_never_decode_error (bs : list Byte.byte) :
  exists cs, utf8_decode open_errors bs = Some cs /\
    read_line_count (Readable bs) = inr (List.length (text_lines (translate_newlines cs))).
Proof.
  destruct (utf8_decode_ignore_total bs) as [cs H].
  exists cs. split; [exact H|]. unfold read_line_count, open_errors.
  rewrite H. reflexivity.
Qed.

(** C10. A directory that cannot be listed is skipped silently:
    [count_lines] gives the same counts and prints the same lines as on
    the tree where such directories are empty, and it prints nothing but
    per-file lines and file warnings, never a line about a directory. *)
Theorem unlistable_dirs_skipped (fs : filesystem) (root : string) :
  count_lines fs root = count_lines (fun p => option_map prune (fs p)) root /\
  (forall e, In e (snd (count_lines fs root)) -> file_event e).
Proof.
  split; [|apply count_lines_file_events].
  unfold count_lines. destruct (fs root) as [t|]; simpl; [|reflexivity].
  rewrite walk_prune. reflexivity.
Qed.

(* ------------------------------------------------------------------ *)
(** ** The statements above at concrete inputs *)

Lemma count_lines_category_totals_witness :
  proj_fs "proj" = Some proj_tree /\ fst (count_lines proj_fs "proj") = (3, 5).
Proof.
  split; [reflexivity|].
  rewrite (count_lines_category_totals proj_fs "proj" proj_tree eq_refl).
  vm_compute. reflexivity.
Defined.

Lemma read_line_count_terminated_lines_witness :
  read_line_count
    (Readable (List.concat (map (fun l => l ++ [Byte.x0a])
                                [[Byte.x61]; [Byte.xc3; Byte.xa9; Byte.x62]])
               ++ [Byte.x63]))
  = inr 3.
Proof.
  refine (proj1 (read_line_count_terminated_lines
                   [[Byte.x61]; [Byte.xc3; Byte.xa9; Byte.x62]] [Byte.x63]
                   _ _ _ _)).
  - repeat constructor; simpl; intuition discriminate.
  - split; simpl; intuition discriminate.
  - discriminate.
  - vm_compute. discriminate.
Defined.

Lemma main_skips_missing_root_witness :
  main ab_fs ["a"; "missing"; "b"]
  = [Banner "a"; PerFile "a/m.cpp" 1; RootSummary "a" 1 0 1;
     NotDirError "missing"; Banner "b"; PerFile "b/h.hpp" 2;
     RootSummary "b" 0 2 2; Separator; GrandTotal 3 1 2 3].
Proof.
  exact (main_skips_missing_root ab_fs "a" "missing" "b" eq_refl eq_refl eq_refl).
Defined.

Lemma unreadable_file_skipped_witness :
  fold_left (process_file "d")
    ([("a.cpp", Readable (list_byte_of_string "1
"))]
     ++ ("x.cpp", Unreadable "[Errno 13] Permission denied")
     :: [("b.hpp", Readable (list_byte_of_string "2
3
"))]) cl_init
  = mk_cl_state 1 2
      [PerFile "d/a.cpp" 1;
       ReadWarning "d/x.cpp" "[Errno 13] Permission denied";
       PerFile "d/b.hpp" 2].
Proof.
  rewrite (unreadable_file_skipped "d" "x.cpp" "[Errno 13] Permission denied"
             [("a.cpp", Readable (list_byte_of_string "1
"))]
             [("b.hpp", Readable (list_byte_of_string "2
3
"))] cl_init eq_refl).
  reflexivity.
Defined.

Lemma file_category_counter_witness :
  process_file "d" cl_init ("readme.md", Readable (list_byte_of_string "x
"))
  = cl_init.
Proof.
  destruct (file_category_counter "d" cl_init "readme.md"
              (Readable (list_byte_of_string "x
"))) as [_ [_ [_ H]]].
  exact (H eq_refl eq_refl).
Defined.

Lemma grand_total_block_iff_witness :
  In Separator (main proj_fs ["proj"; "proj"]) /\
  ~ In Separator (main proj_fs []).
Proof.
  split.
  - apply (proj2 (proj1 (grand_total_block_iff proj_fs ["proj"; "proj"]))).
    simpl. lia.
  - intros H. apply (proj1 (proj1 (grand_total_block_iff proj_fs []))) in H.
    simpl in H. lia.
Defined.

Lemma main_same_root_twice_witness :
  main proj_fs ["proj"; "proj"]
  = [Banner "proj"; PerFile "proj/x.cpp" 3; PerFile "proj/sub/y.hpp" 5;
     RootSummary "proj" 3 5 8;
     Banner "proj"; PerFile "proj/x.cpp" 3; PerFile "proj/sub/y.hpp" 5;
     RootSummary "proj" 3 5 8; Separator; GrandTotal 2 6 10 16].
Proof.
  exact (main_same_root_twice proj_fs "proj" eq_refl).
Defined.

Lemma unlistable_dirs_skipped_witness :
  count_lines locked_fs "root"
  = count_lines (fun p => option_map prune (locked_fs p)) "root" /\
  file_event (PerFile "root/a.cpp" 1).
Proof.
  split; [exact (proj1 (unlistable_dirs_skipped locked_fs "root"))|].
  apply (proj2 (unlistable_dirs_skipped locked_fs "root")).
  vm_compute. left. reflexivity.
Defined.

(* ================================================================== *)
(** * Further properties of the code *)

(* ------------------------------------------------------------------ *)
(** ** What [count_lines] prints *)

Lemma process_file_out (dp : string) (s : cl_state) (fname : string)
    (c : file_content) :
  cl_out (process_file dp s (fname, c)) = cl_out s ++ file_output dp fname c.
Proof.
  unfold process_file, file_output, is_matching.
  destruct (endswith fname ".cpp" || endswith fname ".hpp"); simpl;
    [|rewrite app_nil_r; reflexivity].
  destruct (read_line_count c); [|destruct (endswith fname ".cpp")]; reflexivity.
Qed.

Lemma fold_files_out (dp : string) (fs : list (string * file_content))
    (s : cl_state) :
  cl_out (fold_left (process_file dp) fs s)
  = cl_out s ++ flat_map (fun '(nm, c) => file_output dp nm c) fs.
Proof.
  revert s. induction fs as [|[nm c] fs IH]; intros s; cbn [fold_left flat_map].
  - rewrite app_nil_r. reflexivity.
  - rewrite IH, process_file_out, app_assoc. reflexivity.
Qed.

Lemma fold_dirs_out (w : list (string * list (string * file_content)))
    (s : cl_state) :
  cl_out (fold_left process_dir w s)
  = cl_out s ++ flat_map (fun '(dp, fs) =>
                            flat_map (fun '(nm, c) => file_output dp nm c) fs) w.
Proof.
  revert s. induction w as [|[dp fs] w IH]; intros s;
    cbn [fold_left flat_map process_dir].
  - rewrite app_nil_r. reflexivity.
  - rewrite IH, fold_files_out, app_assoc. reflexivity.
Qed.

Lemma files_sum_app (g : string * file_content -> nat)
    (a b : list (string * file_content)) :
  files_sum g (a ++ b) = files_sum g a + files_sum g b.
Proof.
  induction a as [|f a IH]; simpl; [reflexivity|]. rewrite IH. lia.
Qed.

Lemma walk_found_sum (g : string * file_content -> nat) (n : node) (top : string) :
  files_sum g (flat_map snd (walk top n)) = files_sum g (found_files n).
Proof.
  revert top. induction n as [nm c|nm b ch Hch] using node_ind'; intros top;
    [reflexivity|].
  destruct b; [|reflexivity].
  simpl. rewrite files_sum_app.
  induction Hch as [|c ch Hc Hch IH]; [reflexivity|].
  simpl. rewrite flat_map_app, !files_sum_app.
  destruct c as [nm' ct|nm' b' ch']; simpl in *.
  - rewrite <- IH. simpl. lia.
  - rewrite (Hc (path_join top nm')), <- IH. simpl. lia.
Qed.

Lemma count_events_app (p : event -> bool) (a b : list event) :
  count_events p (a ++ b) = count_events p a + count_events p b.
Proof. unfold count_events. rewrite filter_app, length_app. reflexivity. Qed.

Lemma count_events_walk_out (p : event -> bool) (g : string * file_content -> nat)
    (w : list (string * list (string * file_content))) :
  (forall dp nm c, count_events p (file_output dp nm c) = g (nm, c)) ->
  count_events p (flat_map (fun '(dp, fs) =>
                              flat_map (fun '(nm, c) => file_output dp nm c) fs) w)
  = files_sum g (flat_map snd w).
Proof.
  intros Hg. induction w as [|[dp fs] w IH]; [reflexivity|].
  simpl. rewrite count_events_app, files_sum_app, IH. f_equal.
  induction fs as [|[nm c] fs IHfs]; [reflexivity|].
  simpl. rewrite count_events_app, IHfs, Hg. reflexivity.
Qed.

Lemma substring_app_l (a s : string) (k m : nat) :
  substring (String.length a + k) m (a ++ s) = substring k m s.
Proof. induction a as [|ch a IH]; simpl; [reflexivity|exact IH]. Qed.

Lemma length_string_app (a s : string) :
  String.length (a ++ s) = String.length a + String.length s.
Proof. induction a as [|ch a IH]; simpl; [reflexivity|rewrite IH; reflexivity]. Qed.

Lemma endswith_app (a s suffix : string) :
  endswith s suffix = true -> endswith (a ++ s) suffix = true.
Proof.
  unfold endswith. intros H. apply andb_prop in H as [H1 H2].
  apply Nat.leb_le in H1. rewrite length_string_app.
  replace (String.length a + String.length s - String.length suffix)
    with (String.length a + (String.length s - String.length suffix)) by lia.
  rewrite substring_app_l, H2, andb_true_r. apply Nat.leb_le. lia.
Qed.

Lemma is_matching_app (a s : string) :
  is_matching s = true -> is_matching (a ++ s) = true.
Proof.
  unfold is_matching. intros H. apply orb_true_iff in H as [H|H];
    rewrite (endswith_app a _ _ H); [|apply orb_true_r]; reflexivity.
Qed.

Lemma is_matching_path_join (dp fname : string) :
  is_matching fname = true -> is_matching (path_join dp fname) = true.
Proof.
  intros H. unfold path_join.
  destruct (String.prefix "/" fname); [exact H|].
  destruct (String.eqb dp "" || last_char_is_slash dp);
    [|apply is_matching_app]; apply is_matching_app; exact H.
Qed.

Lemma count_events_file_output_per_file (dp nm : string) (c : file_content) :
  count_events is_per_file (file_output dp nm c)
  = (if is_matching nm && is_readable c then 1 else 0).
Proof.
  unfold file_output, is_readable.
  destruct (is_matching nm), (read_line_count c); reflexivity.
Qed.

Lemma count_events_file_output_warning (dp nm : string) (c : file_content) :
  count_events is_read_warning (file_output dp nm c)
  = (if is_matching nm && negb (is_readable c) then 1 else 0).
Proof.
  unfold file_output, is_readable.
  destruct (is_matching nm), (read_line_count c); reflexivity.
Qed.

Lemma count_events_file_output_all (dp nm : string) (c : file_content) :
  count_events (fun _ => true) (file_output dp nm c)
  = (if is_matching nm then 1 else 0).
Proof.
  unfold file_output. destruct (is_matching nm), (read_line_count c); reflexivity.
Qed.

Lemma count_events_true (l : list event) :
  count_events (fun _ => true) l = List.length l.
Proof.
  unfold count_events. induction l as [|e l IH]; simpl; [reflexivity|].
  rewrite IH. reflexivity.
Qed.

(** [count_lines] prints, in the order [os.walk] visits directories and
    lists files, the output of each file in turn: one per-file line for a
    readable [.cpp]/[.hpp] file, one warning for an unreadable one,
    nothing for any other file. *)
Theorem count_lines_output_walk_order (fs : filesystem) (root : string) :
  snd (count_lines fs root)
  = flat_map (fun '(dp, fs') => flat_map (fun '(nm, c) => file_output dp nm c) fs')
      (match fs root with Some t => walk root t | None => [] end).
Proof.
  unfold count_lines, count_lines_walk. simpl. rewrite fold_dirs_out. reflexivity.
Qed.

Lemma count_lines_out_flat (fs : filesystem) (root : string) :
  snd (count_lines fs root)
  = flat_map (fun '(dp, fs') => flat_map (fun '(nm, c) => file_output dp nm c) fs')
      (match fs root with Some t => walk root t | None => [] end).
Proof.
  unfold count_lines, count_lines_walk. simpl. rewrite fold_dirs_out. reflexivity.
Qed.

(** Every found [.cpp]/[.hpp] file gives exactly one printed line: a
    per-file line when it can be read, a warning otherwise; the number of
    lines [count_lines] prints is the number of such files. *)
Theorem count_lines_one_line_per_matching_file (fs : filesystem) (root : string)
    (t : node) :
  fs root = Some t ->
  count_events is_per_file (snd (count_lines fs root))
  = files_sum (fun '(nm, c) => if is_matching nm && is_readable c then 1 else 0)
      (found_files t) /\
  count_events is_read_warning (snd (count_lines fs root))
  = files_sum (fun '(nm, c) => if is_matching nm && negb (is_readable c) then 1 else 0)
      (found_files t) /\
  List.length (snd (count_lines fs root))
  = files_sum (fun '(nm, _) => if is_matching nm then 1 else 0) (found_files t).
Proof.
  intros H. rewrite count_lines_out_flat, H.
  split; [|split].
  - rewrite (count_events_walk_out is_per_file
               (fun '(nm, c) => if is_matching nm && is_readable c then 1 else 0));
      [apply walk_found_sum|apply count_events_file_output_per_file].
  - rewrite (count_events_walk_out is_read_warning
               (fun '(nm, c) => if is_matching nm && negb (is_readable c) then 1 else 0));
      [apply walk_found_sum|apply count_events_file_output_warning].
  - rewrite <- count_events_true.
    + rewrite (count_events_walk_out (fun _ => true)
                 (fun '(nm, _) => if is_matching nm then 1 else 0));
        [apply walk_found_sum|].
      intros dp nm c. apply count_events_file_output_all.
Qed.

(** Every line [count_lines] prints names a path ending in [.cpp] or
    [.hpp]. *)
Theorem count_lines_printed_paths (fs : filesystem) (root : string) (e : event) :
  In e (snd (count_lines fs root)) -> printed_path_ok e.
Proof.
  rewrite count_lines_out_flat. intros Hin.
  apply in_flat_map in Hin as [[dp fs'] [_ Hin]].
  apply in_flat_map in Hin as [[nm c] [_ Hin]].
  unfold file_output in Hin. destruct (is_matching nm) eqn:Hm; [|destruct Hin].
  destruct (read_line_count c); destruct Hin as [<-|[]]; simpl;
    apply is_matching_path_join; exact Hm.
Qed.

Lemma category_total_no_match (suffix : string) (fs : list (string * file_content)) :
  (suffix = ".cpp" \/ suffix = ".hpp") ->
  Forall (fun f => is_matching (fst f) = false) fs ->
  category_total suffix fs = 0.
Proof.
  intros Hs H. induction H as [|[nm c] fs Hf H IH]; [reflexivity|].
  rewrite category_total_cons, IH. simpl in Hf. unfold is_matching in Hf.
  apply orb_false_iff in Hf as [H1 H2].
  destruct Hs as [->| ->]; [rewrite H1|rewrite H2]; reflexivity.
Qed.

Lemma files_sum_zero (g : string * file_content -> nat)
    (fs : list (string * file_content)) :
  Forall (fun f => g f = 0) fs -> files_sum g fs = 0.
Proof. intros H. induction H as [|f fs Hf H IH]; simpl; lia. Qed.

(** A tree in which no found file ends with [.cpp] or [.hpp] gives
    totals [(0, 0)] and no printed line at all. *)
Theorem count_lines_no_matching_files (fs : filesystem) (root : string) (t : node) :
  fs root = Some t ->
  Forall (fun f => is_matching (fst f) = false) (found_files t) ->
  count_lines fs root = ((0, 0), []).
Proof.
  intros Ht Hnm.
  assert (Hlen : List.length (snd (count_lines fs root)) = 0).
  { rewrite count_lines_out_flat, Ht, <- count_events_true.
    rewrite (count_events_walk_out (fun _ => true)
               (fun '(nm, _) => if is_matching nm then 1 else 0));
      [|intros dp nm c; apply count_events_file_output_all].
    rewrite walk_found_sum. apply files_sum_zero.
    eapply Forall_impl; [|exact Hnm]. intros [nm c] H. simpl in H.
    rewrite H. reflexivity. }
  unfold count_lines, count_lines_walk in *. rewrite Ht in *.
  destruct (fold_dirs_totals (walk root t) cl_init) as [H1 H2].
  rewrite H1, H2, !walk_found_files,
    !category_total_no_match by (auto || exact Hnm).
  simpl in Hlen |- *. destruct (cl_out _); [reflexivity|discriminate].
Qed.

(* ------------------------------------------------------------------ *)
(** ** What [main] prints *)

Lemma valid_total_cons (proj : nat * nat -> nat) (fs : filesystem) (d : string)
    (dirs : list string) :
  valid_total proj fs (d :: dirs)
  = (if isdir fs d then proj (fst (count_lines fs d)) else 0)
    + valid_total proj fs dirs.
Proof. reflexivity. Qed.

Lemma fold_main_step (fs : filesystem) (dirs : list string) (s : main_state) :
  fold_left (main_step fs) dirs s
  = mk_main_state (total_cpp s + valid_total fst fs dirs)
      (total_hpp s + valid_total snd fs dirs)
      (main_out s ++ flat_map (root_output fs) dirs).
Proof.
  revert s. induction dirs as [|d dirs IH]; intros s; cbn [fold_left].
  - destruct s; simpl. rewrite !Nat.add_0_r, app_nil_r. reflexivity.
  - rewrite IH, valid_total_cons, valid_total_cons.
    unfold main_step, root_output. cbn [flat_map].
    destruct (isdir fs d); cbn [negb].
    + destruct (count_lines fs d) as [[c h] o].
      cbn [total_cpp total_hpp main_out fst snd].
      rewrite <- !app_assoc. f_equal; lia.
    + cbn [total_cpp total_hpp main_out fst snd].
      rewrite <- !app_assoc. f_equal; lia.
Qed.

Lemma main_output_flat (fs : filesystem) (argv : list string) :
  main fs argv
  = flat_map (root_output fs) (parse_dirs argv)
    ++ (if 1 <? List.length (parse_dirs argv)
        then [Separator;
              GrandTotal (List.length (parse_dirs argv))
                (valid_total fst fs (parse_dirs argv))
                (valid_total snd fs (parse_dirs argv))
                (valid_total fst fs (parse_dirs argv)
                 + valid_total snd fs (parse_dirs argv))]
        else []).
Proof.
  unfold main, main_dirs. rewrite fold_main_step. simpl.
  destruct (1 <? List.length (parse_dirs argv)); [reflexivity|].
  rewrite app_nil_r. reflexivity.
Qed.

(** [main] prints, for each argument in order, either the error line of
    a non-directory or the banner, the output of [count_lines] and the
    summary of a directory; then, when more than one argument was given,
    the separator and [TOTAL across <K> dirs] with [K] the number of
    arguments and the sums of the totals of the directories among them. *)
Theorem main_output_per_root (fs : filesystem) (argv : list string) :
  let dirs := parse_dirs argv in
  main fs argv
  = flat_map (root_output fs) dirs
    ++ (if 1 <? List.length dirs
        then [Separator;
              GrandTotal (List.length dirs) (valid_total fst fs dirs)
                (valid_total snd fs dirs)
                (valid_total fst fs dirs + valid_total snd fs dirs)]
        else []).
Proof.
  cbv zeta. apply main_output_flat.
Qed.

(** A directory argument on which [os.scandir] fails is reported as
    scanned, with a banner and a summary of zeros, and no error line. *)
Theorem main_unlistable_root (fs : filesystem) (d nm : string) (ch : list node) :
  fs d = Some (Dir nm false ch) ->
  main fs [d] = [Banner d; RootSummary d 0 0 0].
Proof.
  intros H. unfold main, main_dirs. cbn [parse_dirs fold_left].
  unfold main_step, isdir, count_lines. rewrite H. reflexivity.
Qed.

Lemma valid_total_perm (proj : nat * nat -> nat) (fs : filesystem)
    (dirs dirs' : list string) :
  Permutation dirs dirs' -> valid_total proj fs dirs = valid_total proj fs dirs'.
Proof.
  induction 1 as [|d l l' _ IH|d d' l|l l' l'' _ IH1 _ IH2].
  - reflexivity.
  - rewrite !valid_total_cons, IH. reflexivity.
  - rewrite !valid_total_cons. lia.
  - rewrite IH1, IH2. reflexivity.
Qed.

Lemma permutation_short_eq {A : Type} (l l' : list A) :
  Permutation l l' -> List.length l <= 1 -> l = l'.
Proof.
  intros Hp Hl. destruct l as [|a [|b r]].
  - symmetry. apply Permutation_nil. exact Hp.
  - symmetry. apply Permutation_length_1_inv. exact Hp.
  - simpl in Hl. lia.
Qed.

(** The last line [main] prints, the grand-total line when there is one,
    does not depend on the order of the arguments. *)
Theorem main_grand_total_order_independent (fs : filesystem)
    (argv argv' : list string) :
  Permutation argv argv' ->
  last (main fs argv) Separator = last (main fs argv') Separator.
Proof.
  intros Hp.
  destruct (Nat.le_gt_cases (List.length argv) 1) as [Hle|Hgt].
  - rewrite (permutation_short_eq argv argv' Hp Hle). reflexivity.
  - assert (Hpd : parse_dirs argv = argv /\ parse_dirs argv' = argv').
    { pose proof (Permutation_length Hp) as Hl.
      destruct argv, argv'; simpl in *; split; try reflexivity; lia. }
    destruct Hpd as [Hd Hd'].
    rewrite !main_output_flat, Hd, Hd', <- (Permutation_length Hp).
    replace (1 <? List.length argv) with true by (symmetry; apply Nat.ltb_lt; lia).
    rewrite (valid_total_perm fst fs argv argv' Hp),
      (valid_total_perm snd fs argv argv' Hp).
    change [Separator; ?g] with ([Separator] ++ [g]).
    rewrite !app_assoc, !last_last. reflexivity.
Qed.

(* ------------------------------------------------------------------ *)
(** ** Line counts and the bytes of a file *)

Lemma byte_to_nat_inj (a b : Byte.byte) : Byte.to_nat a = Byte.to_nat b -> a = b.
Proof.
  intros H. pose proof (Byte.of_to_nat a) as Ea. pose proof (Byte.of_to_nat b) as Eb.
  rewrite H in Ea. rewrite Ea in Eb. injection Eb as ->. reflexivity.
Qed.

Lemma utf8_step_ascii (b0 : Byte.byte) (r0 : list Byte.byte) :
  Byte.to_nat b0 < 128 -> utf8_step b0 r0 = (Some (Byte.to_nat b0), r0).
Proof.
  intros H. unfold utf8_step.
  replace (Byte.to_nat b0 <? 128) with true by (symmetry; apply Nat.ltb_lt; exact H).
  reflexivity.
Qed.

(** A step only consumes, past its first byte, bytes of 128 or more. *)
Lemma utf8_step_count_ascii (b0 : Byte.byte) (r0 : list Byte.byte) (x : Byte.byte) :
  Byte.to_nat x < 128 ->
  count_occ Byte.byte_eq_dec (snd (utf8_step b0 r0)) x
  = count_occ Byte.byte_eq_dec r0 x.
Proof.
  intros Hx. unfold utf8_step.
  repeat match goal with
  | |- context [if ?c then _ else _] =>
      lazymatch c with Byte.byte_eq_dec _ _ => fail | _ => destruct c eqn:? end
  | |- context [match ?l with [] => _ | _ :: _ => _ end] => destruct l
  end; simpl; try reflexivity;
  byte_bounds;
  repeat match goal with
  | |- context [Byte.byte_eq_dec ?b x] =>
      destruct (Byte.byte_eq_dec b x) as [<-|?]; [lia|]
  end; reflexivity.
Qed.

(** [errors='ignore'] never drops an ASCII byte. *)
Lemma utf8_decode_count_ascii (bs : list Byte.byte) (cs : list nat) (x : Byte.byte) :
  Byte.to_nat x < 128 -> utf8_decode Ignore bs = Some cs ->
  count_occ Nat.eq_dec cs (Byte.to_nat x) = count_occ Byte.byte_eq_dec bs x.
Proof.
  intros Hx. revert cs. induction bs as [bs IH] using list_strong_ind.
  intros cs H. destruct bs as [|b0 r0]; [injection H as <-; reflexivity|].
  rewrite utf8_decode_cons in H.
  pose proof (utf8_step_length b0 r0) as Hlen.
  pose proof (utf8_step_small b0 r0) as Hsmall.
  pose proof (utf8_step_count_ascii b0 r0 x Hx) as Hcnt.
  pose proof (utf8_step_ascii b0 r0) as Hasc.
  destruct (utf8_step b0 r0) as [[c|] rest] eqn:Es; simpl in Hlen, Hcnt.
  - destruct (utf8_decode Ignore rest) as [cs'|] eqn:E; [|discriminate].
    injection H as <-. simpl.
    rewrite (IH rest ltac:(simpl; lia) cs' E), Hcnt.
    destruct (Nat.eq_dec c (Byte.to_nat x)) as [Hc|Hc];
      destruct (Byte.byte_eq_dec b0 x) as [Hb|Hb]; try reflexivity.
    + exfalso. apply Hb. apply byte_to_nat_inj.
      rewrite <- Hc. symmetry. apply (Hsmall rest c eq_refl). lia.
    + exfalso. apply Hc. subst b0.
      pose proof (Hasc Hx) as E2. injection E2 as E2 _. exact E2.
  - simpl in H. simpl. rewrite (IH rest ltac:(simpl; lia) cs H), Hcnt.
    destruct (Byte.byte_eq_dec b0 x) as [<-|Hb]; [|reflexivity].
    discriminate (Hasc Hx).
Qed.

Lemma translate_newlines_cr_other (c : nat) (r : list nat) :
  c <> 10 -> translate_newlines (13 :: c :: r) = 10 :: translate_newlines (c :: r).
Proof.
  intros H. do 10 (destruct c as [|c]; [reflexivity|]).
  destruct c as [|c]; [congruence|reflexivity].
Qed.

Lemma translate_newlines_count (cs : list nat) :
  count_occ Nat.eq_dec cs 10 <= count_occ Nat.eq_dec (translate_newlines cs) 10 /\
  count_occ Nat.eq_dec (translate_newlines cs) 10
  <= count_occ Nat.eq_dec cs 10 + count_occ Nat.eq_dec cs 13.
Proof.
  induction cs as [cs IH] using list_strong_ind.
  destruct cs as [|c r]; [simpl; lia|].
  destruct (Nat.eq_dec c 13) as [->|Hc].
  - destruct r as [|c' r'].
    + simpl. lia.
    + destruct (Nat.eq_dec c' 10) as [->|Hc'].
      * simpl translate_newlines.
        destruct (IH r' ltac:(simpl; lia)) as [H1 H2]. simpl. lia.
      * rewrite translate_newlines_cr_other by exact Hc'.
        destruct (IH (c' :: r') ltac:(simpl; lia)) as [H1 H2].
        revert H1 H2. simpl.
        destruct (Nat.eq_dec c' 10); [congruence|].
        destruct (Nat.eq_dec c' 13); simpl; lia.
  - rewrite translate_newlines_other by exact Hc.
    destruct (IH r ltac:(simpl; lia)) as [H1 H2]. simpl.
    destruct (Nat.eq_dec c 10); destruct (Nat.eq_dec c 13); try congruence; lia.
Qed.

Lemma text_lines_from_count (cur cs : list nat) :
  count_occ Nat.eq_dec cs 10 <= List.length (text_lines_from cur cs) <=
  count_occ Nat.eq_dec cs 10 + 1.
Proof.
  revert cur. induction cs as [|c r IH]; intros cur.
  - simpl. destruct cur; simpl; lia.
  - simpl. destruct (Nat.eq_dec c 10) as [->|Hc].
    + simpl. specialize (IH []). lia.
    + replace (c =? 10) with false by (symmetry; apply Nat.eqb_neq; exact Hc).
      apply IH.
Qed.

(** The count reported for a readable file is at least its number of LF
    bytes and at most its number of LF and CR bytes plus one. *)
Theorem read_line_count_newline_bounds (bs : list Byte.byte) (n : nat) :
  read_line_count (Readable bs) = inr n ->
  count_occ Byte.byte_eq_dec bs Byte.x0a <= n <=
  count_occ Byte.byte_eq_dec bs Byte.x0a + count_occ Byte.byte_eq_dec bs Byte.x0d + 1.
Proof.
  unfold read_line_count, open_errors.
  destruct (utf8_decode_ignore_total bs) as [cs Hcs]. rewrite Hcs.
  intros H. injection H as <-.
  pose proof (utf8_decode_count_ascii bs cs Byte.x0a ltac:(simpl; lia) Hcs) as H10.
  pose proof (utf8_decode_count_ascii bs cs Byte.x0d ltac:(simpl; lia) Hcs) as H13.
  simpl Byte.to_nat in H10, H13.
  destruct (translate_newlines_count cs) as [T1 T2].
  destruct (text_lines_from_count [] (translate_newlines cs)) as [L1 L2].
  unfold text_lines. lia.
Qed.

(** ** Line endings *)

Lemma utf8_decode_ascii_prefix (term r : list Byte.byte) (cr : list nat) :
  Forall (fun b => Byte.to_nat b < 128) term ->
  utf8_decode Ignore r = Some cr ->
  utf8_decode Ignore (term ++ r) = Some (map Byte.to_nat term ++ cr).
Proof.
  intros Ht Hr. induction Ht as [|b term Hb Ht IH]; [exact Hr|].
  exact (utf8_decode_app_ascii [] (term ++ r) b [] (map Byte.to_nat term ++ cr)
           Hb eq_refl IH).
Qed.

Lemma utf8_decode_app_ascii_block (b : Byte.byte) (term l r : list Byte.byte)
    (cl cr : list nat) :
  Forall (fun b => Byte.to_nat b < 128) (b :: term) ->
  utf8_decode Ignore l = Some cl -> utf8_decode Ignore r = Some cr ->
  utf8_decode Ignore (l ++ (b :: term) ++ r)
  = Some (cl ++ map Byte.to_nat (b :: term) ++ cr).
Proof.
  intros Ht Hl Hr. inversion Ht as [|? ? Hb Ht']; subst.
  exact (utf8_decode_app_ascii l (term ++ r) b cl (map Byte.to_nat term ++ cr)
           Hb Hl (utf8_decode_ascii_prefix term r cr Ht' Hr)).
Qed.

Lemma utf8_decode_lines_total (ls : list (list Byte.byte)) :
  exists xs, Forall2 (fun l x => utf8_decode Ignore l = Some x) ls xs.
Proof.
  induction ls as [|l ls [xs IH]]; [exists []; constructor|].
  destruct (utf8_decode_ignore_total l) as [x Hx].
  exists (x :: xs). constructor; assumption.
Qed.

Lemma utf8_decode_joined (b : Byte.byte) (term : list Byte.byte)
    (ls : list (list Byte.byte)) (xs : list (list nat)) (t : list Byte.byte)
    (ct : list nat) :
  Forall (fun b => Byte.to_nat b < 128) (b :: term) ->
  Forall2 (fun l x => utf8_decode Ignore l = Some x) ls xs ->
  utf8_decode Ignore t = Some ct ->
  utf8_decode Ignore (List.concat (map (fun l => l ++ b :: term) ls) ++ t)
  = Some (List.concat (map (fun x => x ++ map Byte.to_nat (b :: term)) xs) ++ ct).
Proof.
  intros Ht Hls Hct. induction Hls as [|l x ls xs Hl Hls IH]; [exact Hct|].
  simpl. rewrite <- !app_assoc.
  exact (utf8_decode_app_ascii_block b term l _ x _ Ht Hl IH).
Qed.

Lemma translate_newlines_prefix (x r : list nat) :
  ~ In 13 x -> translate_newlines (x ++ r) = x ++ translate_newlines r.
Proof.
  induction x as [|c x IH]; intros H; [reflexivity|].
  cbn [app]. rewrite translate_newlines_other by (intros ->; apply H; left; reflexivity).
  f_equal. apply IH. intros Hin. apply H. right. exact Hin.
Qed.

Lemma translate_newlines_cr_no_lf (r : list nat) :
  ~ In 10 r -> translate_newlines (13 :: r) = 10 :: translate_newlines r.
Proof.
  intros H. destruct r as [|c r]; [reflexivity|].
  apply translate_newlines_cr_other. intros ->. apply H. left. reflexivity.
Qed.

(** The three line terminators [open()] recognises in text mode. *)
Definition line_terminators : list (list Byte.byte) :=
  [[Byte.x0a]; [Byte.x0d; Byte.x0a]; [Byte.x0d]].

Lemma translate_newlines_joined (term : list Byte.byte) (xs : list (list nat))
    (ct : list nat) :
  In term line_terminators ->
  Forall (fun x => ~ In 10 x /\ ~ In 13 x) xs -> ~ In 10 ct -> ~ In 13 ct ->
  translate_newlines
    (List.concat (map (fun x => x ++ map Byte.to_nat term) xs) ++ ct)
  = List.concat (map (fun x => x ++ [10]) xs) ++ ct.
Proof.
  intros Hterm Hxs Hct10 Hct13.
  induction Hxs as [|x xs [Hx10 Hx13] Hxs IH].
  - exact (translate_newlines_no_cr ct Hct13).
  - simpl. rewrite <- !app_assoc. rewrite translate_newlines_prefix by exact Hx13.
    f_equal. rewrite <- IH.
    destruct Hterm as [<-|[<-|[<-|[]]]]; simpl map; cbn [app].
    + apply translate_newlines_other. discriminate.
    + reflexivity.
    + apply translate_newlines_cr_no_lf. intros Hin.
      apply in_app_or in Hin as [Hin|Hin]; [|exact (Hct10 Hin)].
      clear IH. induction Hxs as [|y ys [Hy10 _] _ IHy]; [exact Hin|].
      simpl in Hin. rewrite <- app_assoc in Hin.
      apply in_app_or in Hin as [Hin|[Heq|Hin]];
        [exact (Hy10 Hin) | discriminate | exact (IHy Hin)].
Qed.

(** Lines ended by LF, by CRLF or by a lone CR give the same count: the
    file is opened in text mode with universal newlines. *)
Theorem read_line_count_line_endings (ls : list (list Byte.byte))
    (t term : list Byte.byte) :
  Forall no_line_break ls -> no_line_break t -> In term line_terminators ->
  read_line_count (Readable (List.concat (map (fun l => l ++ term) ls) ++ t))
  = read_line_count (Readable (List.concat (map (fun l => l ++ [Byte.x0a]) ls) ++ t)).
Proof.
  intros Hls Ht Hterm.
  destruct (utf8_decode_lines_total ls) as [xs Hxs].
  destruct (utf8_decode_ignore_total t) as [ct Hct].
  destruct (decode_no_line_break Ignore t ct Ht Hct) as [Hct10 Hct13].
  assert (Hxs' : Forall (fun x => ~ In 10 x /\ ~ In 13 x) xs).
  { clear Hterm. induction Hxs as [|l x ls xs Hl _ IH]; [constructor|].
    inversion Hls as [|? ? Hnl Hls']; subst.
    constructor; [exact (decode_no_line_break Ignore l x Hnl Hl)|exact (IH Hls')]. }
  assert (Hasc : forall tm, In tm line_terminators ->
                 exists b tm', tm = b :: tm' /\ Forall (fun b => Byte.to_nat b < 128) tm).
  { intros tm Htm. destruct Htm as [<-|[<-|[<-|[]]]]; eexists _, _; split;
      try reflexivity; repeat constructor; simpl; lia. }
  unfold read_line_count, open_errors.
  destruct (Hasc term Hterm) as [b [tm' [-> Hb]]].
  destruct (Hasc [Byte.x0a] ltac:(left; reflexivity)) as [b1 [tm1 [E1 Hb1]]].
  rewrite (utf8_decode_joined b tm' ls xs t ct Hb Hxs Hct).
  injection E1 as <- <-.
  rewrite (utf8_decode_joined Byte.x0a [] ls xs t ct Hb1 Hxs Hct).
  rewrite (translate_newlines_joined (b :: tm') xs ct Hterm Hxs' Hct10 Hct13).
  rewrite (translate_newlines_joined [Byte.x0a] xs ct ltac:(left; reflexivity)
             Hxs' Hct10 Hct13).
  reflexivity.
Qed.

(** ** Witnesses of the further properties *)

Lemma count_lines_one_line_per_matching_file_witness :
  proj_fs "proj" = Some proj_tree /\
  count_events is_per_file (snd (count_lines proj_fs "proj")) = 2 /\
  List.length (snd (count_lines proj_fs "proj")) = 2.
Proof.
  destruct (count_lines_one_line_per_matching_file proj_fs "proj" proj_tree eq_refl)
    as [H1 [_ H3]].
  split; [reflexivity|]. rewrite H1, H3. vm_compute. split; reflexivity.
Defined.

Lemma count_lines_printed_paths_witness :
  In (PerFile "proj/sub/y.hpp" 5) (snd (count_lines proj_fs "proj")) /\
  printed_path_ok (PerFile "proj/sub/y.hpp" 5).
Proof.
  assert (H : In (PerFile "proj/sub/y.hpp" 5) (snd (count_lines proj_fs "proj"))).
  { vm_compute. right. left. reflexivity. }
  split; [exact H|exact (count_lines_printed_paths proj_fs "proj" _ H)].
Defined.

Lemma count_lines_no_matching_files_witness :
  count_lines
    (fun p => if String.eqb p "docs" then
                Some (Dir "docs" true
                        [File "readme.md" (Readable (list_byte_of_string "x
"));
                         File "main.c" (Readable (list_byte_of_string "y
"))])
              else None) "docs"
  = ((0, 0), []).
Proof.
  apply (count_lines_no_matching_files _ "docs"
           (Dir "docs" true
              [File "readme.md" (Readable (list_byte_of_string "x
"));
               File "main.c" (Readable (list_byte_of_string "y
"))]) eq_refl).
  vm_compute. repeat constructor.
Defined.

Lemma main_unlistable_root_witness :
  main (fun p => if String.eqb p "locked" then
                   Some (Dir "locked" false
                           [File "b.cpp" (Readable (list_byte_of_string "y
"))])
                 else None) ["locked"]
  = [Banner "locked"; RootSummary "locked" 0 0 0].
Proof.
  exact (main_unlistable_root _ "locked" "locked"
           [File "b.cpp" (Readable (list_byte_of_string "y
"))] eq_refl).
Defined.

Lemma main_grand_total_order_independent_witness :
  Permutation ["a"; "missing"; "b"] ["b"; "a"; "missing"] /\
  last (main ab_fs ["a"; "missing"; "b"]) Separator
  = last (main ab_fs ["b"; "a"; "missing"]) Separator.
Proof.
  assert (P : Permutation ["a"; "missing"; "b"] ["b"; "a"; "missing"]).
  { apply Permutation_sym, (Permutation_cons_append ["a"; "missing"] "b"). }
  split; [exact P|exact (main_grand_total_order_independent ab_fs _ _ P)].
Defined.

Lemma read_line_count_newline_bounds_witness :
  read_line_count (Readable [Byte.x61; Byte.x0d; Byte.x0a; Byte.x62; Byte.x0d; Byte.x63])
  = inr 3 /\
  let bs := [Byte.x61; Byte.x0d; Byte.x0a; Byte.x62; Byte.x0d; Byte.x63] in
  count_occ Byte.byte_eq_dec bs Byte.x0a <= 3 <=
  count_occ Byte.byte_eq_dec bs Byte.x0a + count_occ Byte.byte_eq_dec bs Byte.x0d + 1.
Proof.
  assert (H : read_line_count
                (Readable [Byte.x61; Byte.x0d; Byte.x0a; Byte.x62; Byte.x0d; Byte.x63])
              = inr 3) by (vm_compute; reflexivity).
  split; [exact H|exact (read_line_count_newline_bounds _ 3 H)].
Defined.

Lemma read_line_count_line_endings_witness :
  Forall no_line_break [[Byte.x61]; [Byte.xc3; Byte.xa9]] /\
  no_line_break [Byte.x63] /\
  In [Byte.x0d; Byte.x0a] line_terminators /\
  read_line_count
    (Readable [Byte.x61; Byte.x0d; Byte.x0a; Byte.xc3; Byte.xa9; Byte.x0d; Byte.x0a;
               Byte.x63])
  = read_line_count
      (Readable [Byte.x61; Byte.x0a; Byte.xc3; Byte.xa9; Byte.x0a; Byte.x63]).
Proof.
  assert (H1 : Forall no_line_break [[Byte.x61]; [Byte.xc3; Byte.xa9]]).
  { repeat constructor; simpl; intuition discriminate. }
  assert (H2 : no_line_break [Byte.x63]) by (split; simpl; intuition discriminate).
  assert (H3 : In [Byte.x0d; Byte.x0a] line_terminators) by (right; left; reflexivity).
  split; [exact H1|]. split; [exact H2|]. split; [exact H3|].
  exact (read_line_count_line_endings _ _ _ H1 H2 H3).
Defined.
